(** * Logger: a shallow embedding of [src/Logger.h] and [src/Logger.cpp]

    The Arduino [Logger] class filters levelled messages by an enable flag
    and a threshold, composes ["<LABEL>: <message>"] in a stack buffer and
    hands the result to a [Stream] and/or a [Callback].

    The embedding keeps the shape of the C++ code: the object's four members
    are a record, every method is a computation over the object and a trace
    of what reached the outside, and the body of [Logger::log] works on its
    three locals ([_buf], [pti], [levelN]) cell by cell, so that what is and
    what is not initialised stays visible. *)

From Stdlib Require Import ZArith NArith Lia.
From Stdlib Require Import Strings.String Strings.Ascii Strings.Byte.
From Stdlib Require Import Numbers.DecimalString.
From stdpp Require Import base option list.

Local Open Scope string_scope.
Local Open Scope list_scope.

(** ** Machine types *)

(** [uint8_t] is [Byte.byte], a type with exactly the 256 values
    ([Byte.x00] to [Byte.xff]); [Byte.to_N] is the numeric value.

    [enum class Loglevel : uint8_t]: any [uint8_t] value can be cast to the
    enum, so the type is the whole byte; three values have a name. *)
Module Loglevel.

Definition t : Type := Byte.byte.
Definition err : t := Byte.x01.
Definition info : t := Byte.x02.
Definition debug : t := Byte.x03.

(** [static_cast<uint8_t>(level)] and [static_cast<Loglevel>(b)]. *)
Definition to_uint8 (l : t) : Byte.byte := l.
Definition of_uint8 (b : Byte.byte) : t := b.

(** The three named enumerators. *)
Definition recognized (l : t) : Prop := l = err \/ l = info \/ l = debug.

End Loglevel.

(** A local variable or a buffer cell: either it has been given a value, or
    it still holds whatever was there. *)
Inductive slot (A : Type) : Type :=
  | Indeterminate : slot A
  | Init (a : A) : slot A.
Arguments Indeterminate {A}.
Arguments Init {A} a.

Definition slot_map {A B} (f : A -> B) (x : slot A) : slot B :=
  match x with
  | Indeterminate => Indeterminate
  | Init a => Init (f a)
  end.

(** ** C strings in a [char] array *)

Definition NUL : ascii := Ascii.zero.

Definition is_NUL (c : ascii) : bool := Ascii.eqb c NUL.

(** The characters in front of the first NUL. *)
Fixpoint until_NUL (cs : list ascii) : list ascii :=
  match cs with
  | [] => []
  | c :: r => if is_NUL c then [] else c :: until_NUL r
  end.

(** Reading a C string cell by cell: the characters up to the terminator,
    or nothing definite when an unwritten cell or the end of the array comes
    first. *)
Fixpoint scan (cells : list (slot ascii)) : slot (list ascii) :=
  match cells with
  | [] => Indeterminate
  | Indeterminate :: _ => Indeterminate
  | Init c :: r => if is_NUL c then Init [] else slot_map (cons c) (scan r)
  end.

(** The string a [const char *] to cell [p] of [mem] points to. *)
Definition c_str (mem : list (slot ascii)) (p : nat) : slot string :=
  slot_map string_of_list_ascii (scan (drop p mem)).

(** [strcpy(dst, src)] where [dst] is the array itself: the characters of
    [src] and the terminator. *)
Definition strcpy (dst : list (slot ascii)) (src : string) : list (slot ascii) :=
  list_inserts 0 (Init <$> (list_ascii_of_string src ++ [NUL])) dst.

(** ** The platform *)

(** The variadic arguments behind a [va_list]. *)
Inductive va_arg : Type :=
  | VInt (z : Z)
  | VStr (s : string)
  | VChar (c : ascii).

Definition va_list : Type := list va_arg.

(** Modelled from the spec: the C library's formatter is not part of the
    repository.  [vformat s args] is the complete text that the conversion
    of [s] with [args] produces, before any bound is applied. *)
Class Platform : Type := { vformat : string -> va_list -> string }.

(** Modelled from the spec: [vsnprintf(&mem[p], n, s, args)], the bounded
    formatting primitive.  It stores at most [n - 1] characters of the
    complete text followed by a terminator, stores nothing when [n = 0], and
    returns the length of the complete text. *)
Definition vsnprintf `{Platform} (mem : list (slot ascii)) (p n : nat)
    (s : string) (args : va_list) : list (slot ascii) * nat :=
  let full := list_ascii_of_string (vformat s args) in
  match n with
  | O => (mem, length full)
  | S m => (list_inserts p (Init <$> (take m full ++ [NUL])) mem, length full)
  end.

(** A small [printf]: [%d], [%i], [%u], [%s], [%c] and [%%]; anything else
    is copied.  A conversion whose argument is missing or of the wrong kind
    produces no text. *)
Definition decimal (z : Z) : string := NilZero.string_of_int (Z.to_int z).

Fixpoint printf (s : string) (args : va_list) : string :=
  match s with
  | EmptyString => EmptyString
  | String "%" (String "%" r) => String "%" (printf r args)
  | String "%" (String "d" r) | String "%" (String "i" r)
  | String "%" (String "u" r) =>
      match args with
      | VInt z :: args' => String.append (decimal z) (printf r args')
      | _ :: args' => printf r args'
      | [] => printf r []
      end
  | String "%" (String "s" r) =>
      match args with
      | VStr t :: args' => String.append t (printf r args')
      | _ :: args' => printf r args'
      | [] => printf r []
      end
  | String "%" (String "c" r) =>
      match args with
      | VChar c :: args' => String c (printf r args')
      | _ :: args' => printf r args'
      | [] => printf r []
      end
  | String c r => String c (printf r args)
  end.

Definition libc : Platform := {| vformat := printf |}.

(** ** Collaborators *)

(** Modelled from the spec: an Arduino [Stream] object ("write this line of
    text, append a line terminator"), known by its identity. *)
Definition Stream : Type := nat.

(** Modelled from the spec: [Callback<void, uint8_t, const char *,
    const char *, const char *>] of the Callback library.  A callback is
    either unbound (as after default construction) or bound to a handler. *)
Definition handler : Type := nat.
Definition loggerCallback : Type := option handler.

Definition valid (cb : loggerCallback) : bool :=
  match cb with Some _ => true | None => false end.

(** What reaches the outside. *)
Inductive event : Type :=
  | Println (strm : Stream) (text : slot string)
  | Invoke (h : handler) (level : Byte.byte) (levelN : slot string)
      (s : string) (msg : slot string).

(** ** Constants of [Logger.h] *)

Definition LOG_BUFFER_SIZE : nat := 255.

Definition logError : string := "ERROR".
Definition logInfo : string := "INFO".
Definition logDebug : string := "DEBUG".

(** ** The object *)

Record Logger : Type := mkLogger {
  _logLevel : Byte.byte;
  _enabled : Byte.byte;
  _strm : option Stream;
  _logEvent : loggerCallback
}.

(** [Logger::Logger() {}] with the default member initialisers. *)
Definition Logger_new : Logger :=
  {| _logLevel := Byte.x02; _enabled := Byte.x01;
     _strm := None; _logEvent := None |}.

Definition set_logLevel (b : Byte.byte) (o : Logger) : Logger :=
  {| _logLevel := b; _enabled := _enabled o;
     _strm := _strm o; _logEvent := _logEvent o |}.
Definition set_enabled (b : Byte.byte) (o : Logger) : Logger :=
  {| _logLevel := _logLevel o; _enabled := b;
     _strm := _strm o; _logEvent := _logEvent o |}.
Definition set_strm (p : option Stream) (o : Logger) : Logger :=
  {| _logLevel := _logLevel o; _enabled := _enabled o;
     _strm := p; _logEvent := _logEvent o |}.
Definition set_logEvent (cb : loggerCallback) (o : Logger) : Logger :=
  {| _logLevel := _logLevel o; _enabled := _enabled o;
     _strm := _strm o; _logEvent := cb |}.

(** ** Methods as computations *)

(** The object together with everything sent out so far, oldest first. *)
Record world : Type := mkWorld { this : Logger; sent : list event }.

(** A method body: it runs in a world and either returns a value and the
    world it leaves, or has no defined result. *)
Definition M (A : Type) : Type := world -> option (A * world).

#[global] Instance M_ret : MRet M := fun A a w => Some (a, w).
#[global] Instance M_bind : MBind M := fun A B k m w =>
  match m w with
  | Some (a, w') => k a w'
  | None => None
  end.

Definition fault {A} : M A := fun _ => None.

(** Using the value of a local. *)
Definition load {A} (x : slot A) : M A :=
  match x with
  | Init a => mret a
  | Indeterminate => fault
  end.

Definition self : M Logger := fun w => Some (this w, w).

Definition assign (f : Logger -> Logger) : M unit :=
  fun w => Some (tt, {| this := f (this w); sent := sent w |}).

Definition send (e : event) : M unit :=
  fun w => Some (tt, {| this := this w; sent := sent w ++ [e] |}).

Definition skip : M unit := mret tt.

(** [void Logger::begin(Stream &strm)] *)
Definition begin_Stream (strm : Stream) : M unit :=
  assign (set_strm (Some strm)).

(** [void Logger::begin(loggerCallback ev)] *)
Definition begin_Callback (ev : loggerCallback) : M unit :=
  assign (set_logEvent ev).

(** [void Logger::begin(Stream &strm, loggerCallback ev)] *)
Definition begin_Stream_Callback (strm : Stream) (ev : loggerCallback) : M unit :=
  assign (set_strm (Some strm));;
  assign (set_logEvent ev).

Definition setLogLevel (level : Loglevel.t) : M unit :=
  assign (set_logLevel (Loglevel.to_uint8 level)).

Definition getLogLevel : M Loglevel.t :=
  o ← self; mret (Loglevel.of_uint8 (_logLevel o)).

Definition setEnabled (en : Byte.byte) : M unit :=
  assign (set_enabled en).

Definition getEnabled : M Byte.byte :=
  o ← self; mret (_enabled o).

(** ** [Logger::log] *)

(** The locals of [log]. *)
Record locals : Type := mkLocals {
  _buf : list (slot ascii);
  pti : slot nat;
  levelN : slot string
}.

(** [char _buf[LOG_BUFFER_SIZE]; uint16_t pti = 0; const char *levelN;] *)
Definition declared : locals :=
  {| _buf := replicate LOG_BUFFER_SIZE Indeterminate;
     pti := Init 0;
     levelN := Indeterminate |}.

(** One arm of the switch: [strcpy(_buf, name); _buf[i] = ':';
    _buf[i + 1] = ' '; levelN = name; pti = i + 2;] *)
Definition prefix_with (name : string) (i : nat) (l : locals) : locals :=
  let b := strcpy (_buf l) name in
  let b := <[i := Init ":"%char]> b in
  let b := <[S i := Init " "%char]> b in
  {| _buf := b; levelN := Init name; pti := Init (S (S i)) |}.

(** [switch (level)]: three cases and no [default]. *)
Definition switch_level (level : Loglevel.t) (l : locals) : locals :=
  match level with
  | Byte.x01 (* Loglevel::err *) => prefix_with logError 5 l
  | Byte.x02 (* Loglevel::info *) => prefix_with logInfo 4 l
  | Byte.x03 (* Loglevel::debug *) => prefix_with logDebug 5 l
  | _ => l
  end.

(** [if (_strm)]: a pointer in a condition. *)
Definition non_null (p : option Stream) : bool :=
  match p with Some _ => true | None => false end.

(** The condition of the early [return]: [!_enabled ||
    static_cast<uint8_t>(level) > _logLevel ||
    (!_strm && !_logEvent.valid())]. *)
Definition rejects (o : Logger) (level : Loglevel.t) : bool :=
  Byte.eqb (_enabled o) Byte.x00
  || (Byte.to_N (_logLevel o) <? Byte.to_N (Loglevel.to_uint8 level))%N
  || (negb (non_null (_strm o)) && negb (valid (_logEvent o))).

(** [if (_strm) _strm->println(_buf);] *)
Definition to_stream (o : Logger) (mem : list (slot ascii)) : M unit :=
  match _strm o with
  | Some strm => send (Println strm (c_str mem 0))
  | None => skip
  end.

(** [if (_logEvent.valid()) _logEvent(static_cast<uint8_t>(level), levelN,
    s, &_buf[pti]);]  The label pointer is handed over as it is: when it was
    never set, the event says so instead of naming a string. *)
Definition to_callback (o : Logger) (level : Loglevel.t) (name : slot string)
    (s : string) (mem : list (slot ascii)) (p : nat) : M unit :=
  match _logEvent o with
  | Some h => send (Invoke h (Loglevel.to_uint8 level) name s (c_str mem p))
  | None => skip
  end.

(** [pti] is at most 7, so neither [uint16_t] nor the [int] subtraction
    [LOG_BUFFER_SIZE - pti] can wrap. *)
Definition log `{Platform} (level : Loglevel.t) (s : string) (args : va_list)
    : M unit :=
  o ← self;
  if rejects o level then skip
  else
    let l := switch_level level declared in
    i ← load (pti l);
    let mem := fst (vsnprintf (_buf l) i (LOG_BUFFER_SIZE - i) s args) in
    to_stream o mem;;
    to_callback o level (levelN l) s mem i.

(** The wrappers.  The [__FlashStringHelper] overloads only cast the pointer
    and share these bodies. *)
Definition error `{Platform} (s : string) (args : va_list) : M unit :=
  log Loglevel.err s args.

Definition info `{Platform} (s : string) (args : va_list) : M unit :=
  log Loglevel.info s args.

Definition debug `{Platform} (s : string) (args : va_list) : M unit :=
  log Loglevel.debug s args.

(** [Logger logger;] *)
Definition logger : world := {| this := Logger_new; sent := [] |}.


(** ** What a call leaves behind, in closed form *)

(** The text that [switch_level] puts in front of the message. *)
Definition lead (level : Loglevel.t) : string :=
  match level with
  | Byte.x01 => "ERROR: "
  | Byte.x02 => "INFO: "
  | Byte.x03 => "DEBUG: "
  | _ => ""
  end.

(** The label that [switch_level] leaves in [levelN]. *)
Definition name_of (level : Loglevel.t) : slot string :=
  match level with
  | Byte.x01 => Init "ERROR"
  | Byte.x02 => Init "INFO"
  | Byte.x03 => Init "DEBUG"
  | _ => Indeterminate
  end.

(** The cells left for the message and its terminator. *)
Definition room (level : Loglevel.t) : nat :=
  LOG_BUFFER_SIZE - String.length (lead level).

(** What the bounded formatter leaves in an untouched area of [n] cells,
    read back as a C string. *)
Definition formatted `{Platform} (n : nat) (s : string) (args : va_list)
    : slot string :=
  c_str (fst (vsnprintf (replicate n Indeterminate) 0 n s args)) 0.

(** The first [n - 1] characters of the complete text, up to a NUL. *)
Definition kept `{Platform} (n : nat) (s : string) (args : va_list) : string :=
  string_of_list_ascii
    (until_NUL (take (n - 1) (list_ascii_of_string (vformat s args)))).

(** The events of one call that gets past the guard. *)
Definition stream_part `{Platform} (o : Logger) (level : Loglevel.t)
    (s : string) (args : va_list) : list event :=
  match _strm o with
  | Some strm =>
      [Println strm (Init (String.append (lead level) (kept (room level) s args)))]
  | None => []
  end.

Definition callback_part `{Platform} (o : Logger) (level : Loglevel.t)
    (s : string) (args : va_list) : list event :=
  match _logEvent o with
  | Some h =>
      [Invoke h (Loglevel.to_uint8 level) (name_of level)
         s (Init (kept (room level) s args))]
  | None => []
  end.

Definition output `{Platform} (o : Logger) (level : Loglevel.t)
    (s : string) (args : va_list) : list event :=
  if rejects o level then []
  else stream_part o level s args ++ callback_part o level s args.

(** The world after [new] has been sent. *)
Definition after (w : world) (new : list event) : world :=
  {| this := this w; sent := sent w ++ new |}.

(** ** Programs that use the logger *)

(** One call of [log], as a caller writes it. *)
Definition call : Type := Loglevel.t * string * va_list.

(** A caller that logs one message after the other. *)
Fixpoint log_all `{Platform} (calls : list call) : M unit :=
  match calls with
  | [] => skip
  | (level, s, args) :: rest => log level s args;; log_all rest
  end.

(** Running [m] in [w] reaches a destination: it returns and the trace has
    grown. *)
Definition sends (m : M unit) (w : world) : Prop :=
  exists (w' : world) (new : list event),
    m w = Some (tt, w') /\ sent w' = sent w ++ new /\ new <> [].

(** * Proofs *)

Ltac split_all := repeat match goal with |- _ /\ _ => split end.

(** ** Cells and C strings *)

Lemma until_NUL_app (pre cs : list ascii) :
  until_NUL pre = pre -> until_NUL (pre ++ cs) = pre ++ until_NUL cs.
Proof.
  induction pre as [|c r IH]; simpl; [reflexivity|].
  destruct (is_NUL c); [discriminate|].
  intros [= E]. now rewrite IH.
Qed.

Lemma until_NUL_prefix (cs : list ascii) : until_NUL cs `prefix_of` cs.
Proof.
  induction cs as [|c r IH]; simpl; [reflexivity|].
  destruct (is_NUL c); [apply prefix_nil|].
  now apply prefix_cons.
Qed.

Lemma until_NUL_clean (cs : list ascii) :
  Forall (fun c => is_NUL c = false) cs -> until_NUL cs = cs.
Proof.
  induction 1 as [|c r Hc _ IH]; simpl; [reflexivity|].
  now rewrite Hc, IH.
Qed.

Lemma scan_terminated (cs : list ascii) (rest : list (slot ascii)) :
  scan ((Init <$> cs) ++ Init NUL :: rest) = Init (until_NUL cs).
Proof.
  induction cs as [|c r IH]; [reflexivity|].
  rewrite fmap_cons; cbn [app scan until_NUL].
  destruct (is_NUL c); [reflexivity|].
  now rewrite IH.
Qed.

Lemma inserts_splice {A} (p : nat) (k mem : list A) :
  p + length k <= length mem ->
  list_inserts p k mem = take p mem ++ k ++ drop (p + length k) mem.
Proof.
  intros Hlen.
  rewrite <- (take_drop p mem) at 1.
  assert (Hp : length (take p mem) = p) by (rewrite length_take; lia).
  rewrite <- Hp at 1.
  rewrite <- (Nat.add_0_r (length (take p mem))), list_inserts_app_r.
  f_equal.
  rewrite <- (take_drop (length k) (drop p mem)) at 1.
  rewrite list_inserts_0_r, drop_drop; [reflexivity|].
  rewrite length_take, length_drop. lia.
Qed.

Lemma string_of_list_ascii_app (a b : list ascii) :
  string_of_list_ascii (a ++ b)
  = String.append (string_of_list_ascii a) (string_of_list_ascii b).
Proof. induction a as [|c r IH]; simpl; [reflexivity|]. now rewrite IH. Qed.

Lemma length_list_ascii_of_string (t : string) :
  length (list_ascii_of_string t) = String.length t.
Proof. induction t as [|c r IH]; simpl; [reflexivity|]. now rewrite IH. Qed.

(** A terminated text written behind a NUL-free lead: what the two pointers
    [mem] and [&mem[length pre]] then read. *)
Lemma written_reads (pre body : list ascii) (tail : list (slot ascii)) :
  until_NUL pre = pre ->
  length body < length tail ->
  let mem := list_inserts (length pre) (Init <$> (body ++ [NUL]))
               ((Init <$> pre) ++ tail) in
  c_str mem 0 = Init (string_of_list_ascii (pre ++ until_NUL body)) /\
  c_str mem (length pre) = Init (string_of_list_ascii (until_NUL body)).
Proof.
  intros Hpre Hlen mem.
  assert (Hmem : mem = (Init <$> pre) ++ (Init <$> body)
                        ++ Init NUL :: drop (S (length body)) tail).
  { unfold mem. rewrite inserts_splice.
    - rewrite take_app_length', drop_app_add'
        by (rewrite length_fmap; reflexivity).
      rewrite length_fmap, length_app, fmap_app; simpl.
      rewrite <- app_assoc, Nat.add_1_r. reflexivity.
    - repeat (rewrite length_fmap || rewrite length_app); simpl. lia. }
  unfold c_str. rewrite Hmem. split.
  - rewrite drop_0, app_assoc, <- fmap_app, scan_terminated; simpl.
    now rewrite until_NUL_app.
  - rewrite drop_app_length' by (rewrite length_fmap; reflexivity).
    now rewrite scan_terminated.
Qed.

(** ** The switch *)

Lemma switch_level_declared (level : Loglevel.t) :
  switch_level level declared
  = {| _buf := (Init <$> list_ascii_of_string (lead level))
               ++ replicate (room level) Indeterminate;
       pti := Init (String.length (lead level));
       levelN := name_of level |}.
Proof. destruct level; vm_compute; reflexivity. Qed.

Lemma lead_clean (level : Loglevel.t) :
  until_NUL (list_ascii_of_string (lead level))
  = list_ascii_of_string (lead level).
Proof. destruct level; reflexivity. Qed.

Lemma lead_short (level : Loglevel.t) : String.length (lead level) <= 7.
Proof. destruct level; simpl; lia. Qed.

Lemma room_bounds (level : Loglevel.t) : 248 <= room level <= 255.
Proof.
  unfold room. pose proof (lead_short level).
  change LOG_BUFFER_SIZE with 255. lia.
Qed.

(** ** Running a call *)

Section Run.

Context `{Platform}.

Lemma vsnprintf_stores (mem : list (slot ascii)) (p n : nat)
    (s : string) (args : va_list) :
  0 < n ->
  fst (vsnprintf mem p n s args)
  = list_inserts p
      (Init <$> (take (n - 1) (list_ascii_of_string (vformat s args)) ++ [NUL]))
      mem.
Proof.
  intros Hn. unfold vsnprintf. destruct n as [|m]; [lia|].
  simpl. now rewrite Nat.sub_0_r.
Qed.

(** Every call returns, leaves the object alone and appends [output]. *)
Lemma log_run (w : world) (level : Loglevel.t) (s : string) (args : va_list) :
  log level s args w = Some (tt, after w (output (this w) level s args)).
Proof.
  destruct w as [o sofar].
  unfold log, output, after, mbind, M_bind, self; cbn [this sent].
  destruct (rejects o level).
  { unfold skip, mret, M_ret. now rewrite app_nil_r. }
  rewrite switch_level_declared. cbn [pti _buf levelN load mret M_ret].
  pose proof (room_bounds level) as Hroom.
  fold (room level).
  rewrite vsnprintf_stores by lia.
  set (full := list_ascii_of_string (vformat s args)).
  destruct (written_reads (list_ascii_of_string (lead level))
              (take (room level - 1) full)
              (replicate (room level) Indeterminate)) as [Hline Hmsg].
  { apply lead_clean. }
  { rewrite length_take, length_replicate. lia. }
  rewrite length_list_ascii_of_string in Hline, Hmsg.
  unfold to_stream, to_callback, stream_part, callback_part, kept.
  fold full.
  rewrite Hline, Hmsg, string_of_list_ascii_app, string_of_list_ascii_of_string.
  unfold send, skip, mret, M_ret.
  destruct (_strm o), (_logEvent o); cbn [this sent];
    rewrite <- ?app_assoc, ?app_nil_r; reflexivity.
Qed.

(** ** The bounded formatter *)

Lemma formatted_kept (n : nat) (s : string) (args : va_list) :
  0 < n -> formatted n s args = Init (kept n s args).
Proof.
  intros Hn. unfold formatted, kept.
  rewrite vsnprintf_stores by assumption.
  set (body := take (n - 1) (list_ascii_of_string (vformat s args))).
  destruct (written_reads [] body (replicate n Indeterminate)) as [Hline _].
  - reflexivity.
  - unfold body. rewrite length_take, length_replicate. lia.
  - exact Hline.
Qed.

Lemma kept_prefix (n : nat) (s : string) (args : va_list) :
  list_ascii_of_string (kept n s args)
    `prefix_of` list_ascii_of_string (vformat s args).
Proof.
  unfold kept. rewrite list_ascii_of_string_of_list_ascii.
  etransitivity; [apply until_NUL_prefix | apply prefix_take].
Qed.

Lemma kept_length (n : nat) (s : string) (args : va_list) :
  String.length (kept n s args) <= n - 1.
Proof.
  unfold kept.
  rewrite <- length_list_ascii_of_string, list_ascii_of_string_of_list_ascii.
  etransitivity; [apply prefix_length, until_NUL_prefix|].
  rewrite length_take. lia.
Qed.

Lemma kept_whole (n : nat) (s : string) (args : va_list) :
  String.length (vformat s args) < n ->
  Forall (fun c => is_NUL c = false) (list_ascii_of_string (vformat s args)) ->
  kept n s args = vformat s args.
Proof.
  intros Hfit Hclean. unfold kept.
  rewrite take_ge by (rewrite length_list_ascii_of_string; lia).
  now rewrite until_NUL_clean, string_of_list_ascii_of_string.
Qed.

Lemma pti_switch_level (level : Loglevel.t) :
  pti (switch_level level declared) = Init (String.length (lead level)).
Proof. now rewrite switch_level_declared. Qed.

Lemma levelN_switch_level (level : Loglevel.t) :
  levelN (switch_level level declared) = name_of level.
Proof. now rewrite switch_level_declared. Qed.

(** ** The guard *)

Lemma rejects_false (o : Logger) (level : Loglevel.t) :
  rejects o level = false <->
  _enabled o <> Byte.x00 /\
  (Byte.to_N level <= Byte.to_N (_logLevel o))%N /\
  (_strm o <> None \/ _logEvent o <> None).
Proof.
  unfold rejects, Loglevel.to_uint8.
  rewrite !orb_false_iff, andb_false_iff, !negb_false_iff, N.ltb_ge.
  assert (He : Byte.eqb (_enabled o) Byte.x00 = false <-> _enabled o <> Byte.x00).
  { split; [apply Byte.eqb_false|].
    intros Hne. destruct (Byte.eqb _ _) eqn:E; [|reflexivity].
    now apply Byte.byte_dec_bl in E. }
  rewrite He.
  destruct (_strm o), (_logEvent o); simpl; intuition congruence.
Qed.

Lemma rejects_true (o : Logger) (level : Loglevel.t) :
  rejects o level = true <->
  _enabled o = Byte.x00 \/
  (Byte.to_N (_logLevel o) < Byte.to_N level)%N \/
  (_strm o = None /\ _logEvent o = None).
Proof.
  unfold rejects, Loglevel.to_uint8.
  rewrite !orb_true_iff, andb_true_iff, !negb_true_iff, N.ltb_lt.
  assert (He : Byte.eqb (_enabled o) Byte.x00 = true <-> _enabled o = Byte.x00).
  { split; [apply Byte.byte_dec_bl | apply Byte.byte_dec_lb]. }
  rewrite He.
  destruct (_strm o), (_logEvent o); simpl; intuition congruence.
Qed.

Lemma after_nil (w : world) : after w [] = w.
Proof. destruct w. unfold after; simpl. now rewrite app_nil_r. Qed.

(** C1: for every logger state and every severity level (the three
    recognized ones in particular), [log] delivers to an attached stream,
    and likewise to an attached handler, if and only if the enabled flag is
    set and the numeric value of the level is at most that of the threshold;
    when the logger is disabled, the level is above the threshold, or
    neither a stream nor a handler is configured, the call returns with
    nothing sent and the same logger state. *)
Theorem log_delivers_iff (w : world) (level : Loglevel.t)
    (s : string) (args : va_list) :
  exists new : list event,
    log level s args w = Some (tt, after w new) /\
    (forall strm, _strm (this w) = Some strm ->
       (exists text, Println strm text ∈ new) <->
       (_enabled (this w) <> Byte.x00 /\
        (Byte.to_N level <= Byte.to_N (_logLevel (this w)))%N)) /\
    (forall h, _logEvent (this w) = Some h ->
       (exists nm msg, Invoke h level nm s msg ∈ new) <->
       (_enabled (this w) <> Byte.x00 /\
        (Byte.to_N level <= Byte.to_N (_logLevel (this w)))%N)) /\
    (_enabled (this w) = Byte.x00 \/
     (Byte.to_N (_logLevel (this w)) < Byte.to_N level)%N \/
     (_strm (this w) = None /\ _logEvent (this w) = None) ->
     new = [] /\ log level s args w = Some (tt, w)).
Proof.
  exists (output (this w) level s args).
  split; [apply log_run|].
  pose proof (rejects_false (this w) level) as Hpass.
  pose proof (rejects_true (this w) level) as Hstop.
  unfold output, stream_part, callback_part.
  destruct (rejects (this w) level) eqn:E.
  - assert (Hno : ~ (_enabled (this w) <> Byte.x00 /\
                     (Byte.to_N level <= Byte.to_N (_logLevel (this w)))%N /\
                     (_strm (this w) <> None \/ _logEvent (this w) <> None)))
      by (rewrite <- Hpass; discriminate).
    split; [|split].
    + intros strm Hs. split.
      * intros [text Hin]. now apply elem_of_nil in Hin.
      * intros [He Hle]. exfalso. apply Hno. rewrite Hs. intuition congruence.
    + intros h Hh. split.
      * intros (nm & msg & Hin). now apply elem_of_nil in Hin.
      * intros [He Hle]. exfalso. apply Hno. rewrite Hh. intuition congruence.
    + intros _. split; [reflexivity|].
      rewrite log_run. unfold output. now rewrite E, after_nil.
  - destruct Hpass as [Hpass _]. destruct (Hpass eq_refl) as (He & Hle & Hdst).
    split; [|split].
    + intros strm Hs. rewrite Hs. split; [now intros _|].
      intros _. eexists. apply elem_of_app. left. apply list_elem_of_singleton.
      reflexivity.
    + intros h Hh. rewrite Hh. split; [now intros _|].
      intros _. do 2 eexists. apply elem_of_app. right.
      apply list_elem_of_singleton. reflexivity.
    + intros Hbad. apply Hstop in Hbad. discriminate.
Qed.

(** A call that gets past the guard. *)
Lemma log_passes (w : world) (level : Loglevel.t) (s : string) (args : va_list) :
  _enabled (this w) <> Byte.x00 ->
  (Byte.to_N level <= Byte.to_N (_logLevel (this w)))%N ->
  _strm (this w) <> None \/ _logEvent (this w) <> None ->
  log level s args w
  = Some (tt, after w (stream_part (this w) level s args
                       ++ callback_part (this w) level s args)).
Proof.
  intros He Hle Hdst. rewrite log_run. unfold output.
  now rewrite (proj2 (rejects_false (this w) level)).
Qed.

Lemma callback_part_no_Println (o : Logger) (level : Loglevel.t)
    (s : string) (args : va_list) (p : Stream) (text : slot string) :
  Println p text ∉ callback_part o level s args.
Proof.
  unfold callback_part. destruct (_logEvent o).
  - rewrite list_elem_of_singleton. discriminate.
  - apply not_elem_of_nil.
Qed.

Lemma stream_part_no_Invoke (o : Logger) (level : Loglevel.t)
    (s : string) (args : va_list) (h : handler) (lv : Byte.byte)
    (nm : slot string) (f : string) (msg : slot string) :
  Invoke h lv nm f msg ∉ stream_part o level s args.
Proof.
  unfold stream_part. destruct (_strm o).
  - rewrite list_elem_of_singleton. discriminate.
  - apply not_elem_of_nil.
Qed.

Lemma output_Println (o : Logger) (level : Loglevel.t) (s : string)
    (args : va_list) (p : Stream) (text : slot string) :
  Println p text ∈ output o level s args -> _strm o = Some p.
Proof.
  unfold output, stream_part. destruct (rejects o level).
  { intros Hin. now apply elem_of_nil in Hin. }
  rewrite elem_of_app. intros [Hin|Hin].
  - destruct (_strm o); [|now apply elem_of_nil in Hin].
    apply list_elem_of_singleton in Hin. congruence.
  - now apply callback_part_no_Println in Hin.
Qed.

Lemma output_Invoke (o : Logger) (level : Loglevel.t) (s : string)
    (args : va_list) (h : handler) (lv : Byte.byte) (nm : slot string)
    (f : string) (msg : slot string) :
  Invoke h lv nm f msg ∈ output o level s args -> _logEvent o = Some h.
Proof.
  unfold output, callback_part. destruct (rejects o level).
  { intros Hin. now apply elem_of_nil in Hin. }
  rewrite elem_of_app. intros [Hin|Hin].
  - now apply stream_part_no_Invoke in Hin.
  - destruct (_logEvent o); [|now apply elem_of_nil in Hin].
    apply list_elem_of_singleton in Hin. congruence.
Qed.

Lemma output_reaches_stream (o : Logger) (level : Loglevel.t) (s : string)
    (args : va_list) (p : Stream) :
  _enabled o <> Byte.x00 ->
  (Byte.to_N level <= Byte.to_N (_logLevel o))%N ->
  _strm o = Some p ->
  exists text, Println p text ∈ output o level s args.
Proof.
  intros He Hle Hs. unfold output, stream_part.
  rewrite (proj2 (rejects_false o level)), Hs
    by (repeat split; try assumption; left; congruence).
  eexists. apply elem_of_app. left. now apply list_elem_of_singleton.
Qed.

Lemma output_reaches_handler (o : Logger) (level : Loglevel.t) (s : string)
    (args : va_list) (h : handler) :
  _enabled o <> Byte.x00 ->
  (Byte.to_N level <= Byte.to_N (_logLevel o))%N ->
  _logEvent o = Some h ->
  exists nm msg,
    Invoke h (Loglevel.to_uint8 level) nm s msg ∈ output o level s args.
Proof.
  intros He Hle Hh. unfold output, callback_part.
  rewrite (proj2 (rejects_false o level)), Hh
    by (repeat split; try assumption; right; congruence).
  do 2 eexists. apply elem_of_app. right. now apply list_elem_of_singleton.
Qed.

(** A call right after a change of the object. *)
Lemma log_after_assign (f : Logger -> Logger) (w : world)
    (level : Loglevel.t) (s : string) (args : va_list) :
  (assign f;; log level s args) w
  = Some (tt, after {| this := f (this w); sent := sent w |}
                (output (f (this w)) level s args)).
Proof.
  unfold mbind, M_bind, assign. now rewrite log_run.
Qed.

End Run.

(** ** Labels, lines and handler arguments *)

(** C2: for every message that is sent, the label is exactly "ERROR" for
    Error, "INFO" for Info and "DEBUG" for Debug, and the line written to
    the attached stream is exactly the label, a colon, a space and the
    formatted message; with the default threshold, logging enabled, a stream
    attached and no handler, [debug("x=%d", 5)] writes nothing and
    [info("x=%d", 5)] writes the line "INFO: x=5". *)
Theorem line_is_label_colon_message :
  (forall (P : Platform) (w : world) (level : Loglevel.t) (label : string)
          (s : string) (args : va_list) (strm : Stream),
     (level, label) ∈ [(Loglevel.err, "ERROR"); (Loglevel.info, "INFO");
                       (Loglevel.debug, "DEBUG")] ->
     _enabled (this w) <> Byte.x00 ->
     (Byte.to_N level <= Byte.to_N (_logLevel (this w)))%N ->
     _strm (this w) = Some strm ->
     exists (body : string) (calls : list event),
       levelN (switch_level level declared) = Init label /\
       formatted (LOG_BUFFER_SIZE - (String.length label + 2)) s args
       = Init body /\
       log level s args w
       = Some (tt, after w (Println strm (Init (label ++ ": " ++ body)%string)
                            :: calls)) /\
       (forall p text, Println p text ∉ calls)) /\
  (forall strm : Stream,
     (begin_Stream strm;; @debug libc "x=%d" [VInt 5]) logger
     = Some (tt, {| this := set_strm (Some strm) Logger_new; sent := [] |}) /\
     (begin_Stream strm;; @info libc "x=%d" [VInt 5]) logger
     = Some (tt, {| this := set_strm (Some strm) Logger_new;
                    sent := [Println strm (Init "INFO: x=5")] |})).
Proof.
  split.
  - intros P w level label s args strm Hin He Hle Hs.
    exists (kept (room level) s args), (callback_part (this w) level s args).
    assert (Hroom : 0 < room level) by (pose proof (room_bounds level); lia).
    rewrite log_passes by (try assumption; left; congruence).
    unfold stream_part. rewrite Hs, levelN_switch_level.
    rewrite <- (formatted_kept (room level)) by assumption.
    repeat (apply elem_of_cons in Hin as [[= -> ->]|Hin]);
      [| | |now apply elem_of_nil in Hin];
      (split; [reflexivity|]);
      (split; [reflexivity|]);
      (split; [reflexivity|]);
      intros p text; apply callback_part_no_Println.
  - intros strm. split; vm_compute; reflexivity.
Qed.

(** C3: whenever a handler is attached and a message gets past the guard,
    the handler is invoked once, with the raw numeric severity, the label
    string ("ERROR", "INFO" or "DEBUG" for the three named levels), the
    format string as it was passed, and the formatted message without the
    label in front; with threshold Debug, a handler attached and no stream,
    [error("boom")] invokes it with (1, "ERROR", "boom", "boom") and writes
    no text. *)
Theorem handler_gets_level_label_format_message :
  (forall (P : Platform) (w : world) (level : Loglevel.t)
          (s : string) (args : va_list) (h : handler),
     _enabled (this w) <> Byte.x00 ->
     (Byte.to_N level <= Byte.to_N (_logLevel (this w)))%N ->
     _logEvent (this w) = Some h ->
     exists (i : nat) (body : string) (writes : list event),
       pti (switch_level level declared) = Init i /\
       formatted (LOG_BUFFER_SIZE - i) s args = Init body /\
       log level s args w
       = Some (tt, after w (writes ++
                 [Invoke h (Loglevel.to_uint8 level)
                    (levelN (switch_level level declared)) s (Init body)])) /\
       (forall h' lv nm f msg, Invoke h' lv nm f msg ∉ writes) /\
       (forall label,
          (level, label) ∈ [(Loglevel.err, "ERROR"); (Loglevel.info, "INFO");
                            (Loglevel.debug, "DEBUG")] ->
          levelN (switch_level level declared) = Init label)) /\
  (forall h : handler,
     (begin_Callback (Some h);; setLogLevel Loglevel.debug;;
      @error libc "boom" []) logger
     = Some (tt, {| this := set_logLevel Loglevel.debug
                              (set_logEvent (Some h) Logger_new);
                    sent := [Invoke h Byte.x01 (Init "ERROR") "boom"
                               (Init "boom")] |}) /\
     Byte.to_N Byte.x01 = 1%N).
Proof.
  split.
  - intros P w level s args h He Hle Hh.
    exists (String.length (lead level)), (kept (room level) s args),
      (stream_part (this w) level s args).
    assert (Hroom : 0 < room level) by (pose proof (room_bounds level); lia).
    split; [apply pti_switch_level|].
    split; [now apply formatted_kept|].
    split.
    { rewrite log_passes by (try assumption; right; congruence).
      unfold callback_part. now rewrite Hh, levelN_switch_level. }
    split; [intros; apply stream_part_no_Invoke|].
    intros label Hin. rewrite levelN_switch_level.
    repeat (apply elem_of_cons in Hin as [[= -> ->]|Hin]);
      [reflexivity..|now apply elem_of_nil in Hin].
  - intros h. split; [vm_compute|]; reflexivity.
Qed.

(** C4: for every call that gets past the guard, the message body is what
    the bounded formatter leaves in the cells that remain behind the label:
    the complete text of the conversion cut to the remaining capacity less
    the terminator, a prefix of the complete text and the complete text
    itself when that fits; the call returns normally whatever the length. *)
Theorem message_is_bounded_format (P : Platform) (w : world)
    (level : Loglevel.t) (s : string) (args : va_list) :
  _enabled (this w) <> Byte.x00 ->
  (Byte.to_N level <= Byte.to_N (_logLevel (this w)))%N ->
  _strm (this w) <> None \/ _logEvent (this w) <> None ->
  exists (i : nat) (body : string) (new : list event),
    pti (switch_level level declared) = Init i /\
    formatted (LOG_BUFFER_SIZE - i) s args = Init body /\
    body = string_of_list_ascii
             (until_NUL (take (LOG_BUFFER_SIZE - i - 1)
                           (list_ascii_of_string (vformat s args)))) /\
    list_ascii_of_string body
      `prefix_of` list_ascii_of_string (vformat s args) /\
    String.length body < LOG_BUFFER_SIZE - i /\
    (String.length (vformat s args) < LOG_BUFFER_SIZE - i ->
     Forall (fun c => is_NUL c = false)
       (list_ascii_of_string (vformat s args)) ->
     body = vformat s args) /\
    log level s args w = Some (tt, after w new) /\
    (forall strm, _strm (this w) = Some strm ->
       exists front, Println strm (Init (front ++ body)%string) ∈ new) /\
    (forall h, _logEvent (this w) = Some h ->
       exists nm, Invoke h (Loglevel.to_uint8 level) nm s (Init body) ∈ new).
Proof.
  intros He Hle Hdst.
  exists (String.length (lead level)), (kept (room level) s args),
    (stream_part (this w) level s args ++ callback_part (this w) level s args).
  pose proof (room_bounds level) as Hroom. fold (room level).
  split; [apply pti_switch_level|].
  split; [apply formatted_kept; lia|].
  split; [reflexivity|].
  split; [apply kept_prefix|].
  split; [pose proof (kept_length (room level) s args); lia|].
  split; [apply kept_whole|].
  split; [now apply log_passes|].
  split.
  - intros strm Hs. exists (lead level). apply elem_of_app. left.
    unfold stream_part. rewrite Hs. now apply list_elem_of_singleton.
  - intros h Hh. exists (name_of level). apply elem_of_app. right.
    unfold callback_part. rewrite Hh. now apply list_elem_of_singleton.
Qed.

(** C5: when both a stream and a handler are configured and a message gets
    past the guard, the same call sends to both, the line to the stream
    first and the handler invocation second. *)
Theorem stream_then_handler (P : Platform) (w : world) (level : Loglevel.t)
    (s : string) (args : va_list) (strm : Stream) (h : handler) :
  _enabled (this w) <> Byte.x00 ->
  (Byte.to_N level <= Byte.to_N (_logLevel (this w)))%N ->
  _strm (this w) = Some strm ->
  _logEvent (this w) = Some h ->
  exists (line : string) (nm : slot string) (body : string),
    log level s args w
    = Some (tt, after w [Println strm (Init line);
                         Invoke h (Loglevel.to_uint8 level) nm s (Init body)]).
Proof.
  intros He Hle Hs Hh.
  rewrite log_passes by (try assumption; left; congruence).
  unfold stream_part, callback_part. rewrite Hs, Hh.
  do 3 eexists. reflexivity.
Qed.

(** ** Configuration *)

(** C6: each of the three [begin] overloads replaces what was configured
    before, whatever it was, and always returns: the last stream and the
    last callback supplied are the ones in place, and a later [log] writes
    to no other stream and invokes no other handler. *)
Theorem begin_last_write_wins :
  (forall (w : world) (a b : Stream),
     (begin_Stream a;; begin_Stream b) w
     = Some (tt, {| this := set_strm (Some b) (this w); sent := sent w |})) /\
  (forall (w : world) (a b : loggerCallback),
     (begin_Callback a;; begin_Callback b) w
     = Some (tt, {| this := set_logEvent b (this w); sent := sent w |})) /\
  (forall (w : world) (a c : Stream) (b d : loggerCallback),
     (begin_Stream_Callback a b;; begin_Stream_Callback c d) w
     = Some (tt, {| this := set_logEvent d (set_strm (Some c) (this w));
                    sent := sent w |}) /\
     (begin_Stream_Callback a b;; begin_Stream c) w
     = Some (tt, {| this := set_logEvent b (set_strm (Some c) (this w));
                    sent := sent w |}) /\
     (begin_Stream_Callback a b;; begin_Callback d) w
     = Some (tt, {| this := set_logEvent d (set_strm (Some a) (this w));
                    sent := sent w |})) /\
  (forall (P : Platform) (w : world) (strm : Stream) (ev : loggerCallback)
          (level : Loglevel.t) (s : string) (args : va_list),
     exists (w1 w2 w3 : world) (new1 new2 new3 : list event),
       begin_Stream strm w = Some (tt, w1) /\
       _strm (this w1) = Some strm /\
       log level s args w1 = Some (tt, after w1 new1) /\
       (forall p text, Println p text ∈ new1 -> p = strm) /\
       begin_Callback ev w = Some (tt, w2) /\
       _logEvent (this w2) = ev /\
       log level s args w2 = Some (tt, after w2 new2) /\
       (forall h lv nm f msg, Invoke h lv nm f msg ∈ new2 -> ev = Some h) /\
       begin_Stream_Callback strm ev w = Some (tt, w3) /\
       _strm (this w3) = Some strm /\
       _logEvent (this w3) = ev /\
       log level s args w3 = Some (tt, after w3 new3) /\
       (forall p text, Println p text ∈ new3 -> p = strm) /\
       (forall h lv nm f msg, Invoke h lv nm f msg ∈ new3 -> ev = Some h) /\
       (_enabled (this w) <> Byte.x00 ->
        (Byte.to_N level <= Byte.to_N (_logLevel (this w)))%N ->
        (exists text, Println strm text ∈ new1) /\
        (exists text, Println strm text ∈ new3) /\
        (forall h, ev = Some h ->
           (exists nm msg, Invoke h (Loglevel.to_uint8 level) nm s msg ∈ new2) /\
           (exists nm msg, Invoke h (Loglevel.to_uint8 level) nm s msg ∈ new3)))).
Proof.
  split; [|split; [|split]].
  - intros [o sofar] a b. reflexivity.
  - intros [o sofar] a b. reflexivity.
  - intros [o sofar] a c b d. repeat split.
  - intros P [o sofar] strm ev level s args.
    exists {| this := set_strm (Some strm) o; sent := sofar |},
           {| this := set_logEvent ev o; sent := sofar |},
           {| this := set_logEvent ev (set_strm (Some strm) o); sent := sofar |}.
    exists (output (set_strm (Some strm) o) level s args),
           (output (set_logEvent ev o) level s args),
           (output (set_logEvent ev (set_strm (Some strm) o)) level s args).
    rewrite !log_run. cbn [this sent].
    split_all; try reflexivity.
    + intros p text Hin. apply output_Println in Hin. simpl in Hin. congruence.
    + intros h lv nm f msg Hin. now apply output_Invoke in Hin.
    + intros p text Hin. apply output_Println in Hin. simpl in Hin. congruence.
    + intros h lv nm f msg Hin. now apply output_Invoke in Hin.
    + intros He Hle. split; [|split].
      * now apply output_reaches_stream.
      * now apply output_reaches_stream.
      * intros h ->. split; now apply output_reaches_handler.
Qed.

(** C7: a freshly constructed [Logger] has threshold Info (numeric value 2),
    is enabled, and has neither a stream nor a handler, so a [log] call
    before any [begin] sends nothing and leaves everything as it was. *)
Theorem fresh_logger_defaults :
  getLogLevel logger = Some (Loglevel.info, logger) /\
  Byte.to_N (Loglevel.to_uint8 Loglevel.info) = 2%N /\
  (exists en, getEnabled logger = Some (en, logger) /\ en <> Byte.x00) /\
  _strm (this logger) = None /\
  valid (_logEvent (this logger)) = false /\
  sent logger = [] /\
  (forall (P : Platform) (level : Loglevel.t) (s : string) (args : va_list),
     log level s args logger = Some (tt, logger)).
Proof.
  split_all; try reflexivity.
  - exists Byte.x01. split; [reflexivity|discriminate].
  - intros P level s args. rewrite log_run. unfold output.
    rewrite (proj2 (rejects_true (this logger) level)); [reflexivity|].
    right; right. split; reflexivity.
Qed.

(** C8: every operation changes only its own part of the object.
    [begin(stream)] keeps the handler, [begin(callback)] keeps the stream,
    and both keep threshold and flag, as does [begin(stream, callback)];
    [setLogLevel] changes only the threshold and [setEnabled] only the flag;
    the getters, [log] and its three wrappers change no field at all.  None
    of the configuration operations sends anything. *)
Theorem operations_keep_other_fields (P : Platform) (w : world) :
  (forall strm, exists w',
     begin_Stream strm w = Some (tt, w') /\
     _logEvent (this w') = _logEvent (this w) /\
     _logLevel (this w') = _logLevel (this w) /\
     _enabled (this w') = _enabled (this w) /\ sent w' = sent w) /\
  (forall ev, exists w',
     begin_Callback ev w = Some (tt, w') /\
     _strm (this w') = _strm (this w) /\
     _logLevel (this w') = _logLevel (this w) /\
     _enabled (this w') = _enabled (this w) /\ sent w' = sent w) /\
  (forall strm ev, exists w',
     begin_Stream_Callback strm ev w = Some (tt, w') /\
     _logLevel (this w') = _logLevel (this w) /\
     _enabled (this w') = _enabled (this w) /\ sent w' = sent w) /\
  (forall level, exists w',
     setLogLevel level w = Some (tt, w') /\
     _logLevel (this w') = Loglevel.to_uint8 level /\
     _enabled (this w') = _enabled (this w) /\
     _strm (this w') = _strm (this w) /\
     _logEvent (this w') = _logEvent (this w) /\ sent w' = sent w) /\
  (forall en, exists w',
     setEnabled en w = Some (tt, w') /\
     _enabled (this w') = en /\
     _logLevel (this w') = _logLevel (this w) /\
     _strm (this w') = _strm (this w) /\
     _logEvent (this w') = _logEvent (this w) /\ sent w' = sent w) /\
  getLogLevel w = Some (Loglevel.of_uint8 (_logLevel (this w)), w) /\
  getEnabled w = Some (_enabled (this w), w) /\
  (forall level s args, exists w',
     log level s args w = Some (tt, w') /\ this w' = this w) /\
  (forall s args, exists w1 w2 w3,
     error s args w = Some (tt, w1) /\ this w1 = this w /\
     info s args w = Some (tt, w2) /\ this w2 = this w /\
     debug s args w = Some (tt, w3) /\ this w3 = this w).
Proof.
  destruct w as [o sofar].
  split_all;
    try reflexivity; intros;
    try (eexists; repeat split; reflexivity).
  - eexists. split; [apply log_run|reflexivity].
  - unfold error, info, debug. do 3 eexists.
    split_all;
      try apply log_run; reflexivity.
Qed.

(** ** Levels without a case *)

(** C9 as stated fails at level 0 on a default logger with a stream: the
    level is outside {1, 2, 3} and gets past the guard, yet the prefix index
    is not indeterminate, so it is not true that both locals stay
    uninitialised. *)
Lemma level_0_pti_is_initialised :
  ~ Loglevel.recognized Byte.x00 /\
  _enabled (set_strm (Some 0) Logger_new) <> Byte.x00 /\
  (Byte.to_N Byte.x00
   <= Byte.to_N (_logLevel (set_strm (Some 0%nat) Logger_new)))%N /\
  _strm (set_strm (Some 0) Logger_new) <> None /\
  rejects (set_strm (Some 0) Logger_new) Byte.x00 = false /\
  ~ (levelN (switch_level Byte.x00 declared) = Indeterminate /\
     pti (switch_level Byte.x00 declared) = Indeterminate).
Proof.
  split_all.
  - intros [E|[E|E]]; discriminate E.
  - discriminate.
  - vm_compute. discriminate.
  - discriminate.
  - reflexivity.
  - intros [_ E]. discriminate E.
Qed.

(** C9, amended: for a severity value outside {1, 2, 3} that is at most the
    threshold, with the logger enabled and a destination attached, [log]
    gets past the guard and matches no case of the switch, so the label
    pointer it then uses is never initialised, while the prefix index keeps
    the 0 it was declared with: the message is formatted at the start of
    the buffer, the stream gets it without a label and the handler gets an
    indeterminate label pointer.  The switch sets the label exactly for the
    levels Error, Info and Debug. *)
Theorem unlabelled_level_locals :
  (forall (o : Logger) (level : Loglevel.t),
     ~ Loglevel.recognized level ->
     _enabled o <> Byte.x00 ->
     (Byte.to_N level <= Byte.to_N (_logLevel o))%N ->
     _strm o <> None \/ _logEvent o <> None ->
     rejects o level = false /\
     switch_level level declared = declared /\
     levelN (switch_level level declared) = Indeterminate /\
     pti (switch_level level declared) = Init 0) /\
  (forall level : Loglevel.t,
     (exists label, levelN (switch_level level declared) = Init label) <->
     Loglevel.recognized level) /\
  (forall (P : Platform) (w : world) (level : Loglevel.t)
          (s : string) (args : va_list),
     ~ Loglevel.recognized level ->
     _enabled (this w) <> Byte.x00 ->
     (Byte.to_N level <= Byte.to_N (_logLevel (this w)))%N ->
     _strm (this w) <> None \/ _logEvent (this w) <> None ->
     exists body,
       formatted LOG_BUFFER_SIZE s args = Init body /\
       log level s args w
       = Some (tt, after w
                 (match _strm (this w) with
                  | Some strm => [Println strm (Init body)]
                  | None => []
                  end ++
                  match _logEvent (this w) with
                  | Some h => [Invoke h (Loglevel.to_uint8 level)
                                 Indeterminate s (Init body)]
                  | None => []
                  end))).
Proof.
  assert (Hsame : forall level : Loglevel.t,
            ~ Loglevel.recognized level ->
            switch_level level declared = declared /\ lead level = ""
            /\ name_of level = Indeterminate).
  { intros level Hn.
    destruct level;
      try (exfalso; apply Hn; unfold Loglevel.recognized, Loglevel.err,
             Loglevel.info, Loglevel.debug; auto; fail);
      repeat split. }
  split; [|split].
  - intros o level Hn He Hle Hdst.
    destruct (Hsame level Hn) as (Hsw & _ & _).
    split; [now apply rejects_false|].
    rewrite Hsw. repeat split.
  - intros level. rewrite levelN_switch_level. split.
    + intros [label Hl].
      destruct level; try discriminate Hl; unfold Loglevel.recognized; auto.
    + intros [-> | [-> | ->]]; eexists; reflexivity.
  - intros P w level s args Hn He Hle Hdst.
    destruct (Hsame level Hn) as (_ & Hlead & Hname).
    exists (kept LOG_BUFFER_SIZE s args).
    split; [apply formatted_kept; unfold LOG_BUFFER_SIZE; lia|].
    rewrite log_passes by assumption.
    unfold stream_part, callback_part, room. rewrite Hlead, Hname.
    reflexivity.
Qed.

(** ** The enabled flag *)

(** C10: [setEnabled] stores the byte it is given and [getEnabled] returns
    that byte, not a 0/1 version of it; the guard takes every nonzero byte
    as enabled, so after [setEnabled(n)] with [n <> 0] a message within the
    threshold reaches every attached destination, as it does after
    [setEnabled(1)]. *)
Theorem setEnabled_stores_byte (P : Platform) (w : world) (n : Byte.byte) :
  (setEnabled n;; getEnabled) w
  = Some (n, {| this := set_enabled n (this w); sent := sent w |}) /\
  (n <> Byte.x00 ->
   forall (level : Loglevel.t) (s : string) (args : va_list),
     rejects (set_enabled n (this w)) level
     = rejects (set_enabled Byte.x01 (this w)) level /\
     exists new,
       (setEnabled n;; log level s args) w
       = Some (tt, after {| this := set_enabled n (this w); sent := sent w |}
                     new) /\
       ((Byte.to_N level <= Byte.to_N (_logLevel (this w)))%N ->
        (forall strm, _strm (this w) = Some strm ->
           exists text, Println strm text ∈ new) /\
        (forall h, _logEvent (this w) = Some h ->
           exists nm msg,
             Invoke h (Loglevel.to_uint8 level) nm s msg ∈ new))).
Proof.
  split; [now destruct w|].
  intros Hn level s args. split.
  - unfold rejects; cbn [_enabled set_enabled _logLevel _strm _logEvent].
    destruct (Byte.eqb n Byte.x00) eqn:E; [|reflexivity].
    now apply Byte.byte_dec_bl in E.
  - exists (output (set_enabled n (this w)) level s args).
    split; [apply log_after_assign|].
    intros Hle. split.
    + intros strm Hs. now apply output_reaches_stream.
    + intros h Hh. now apply output_reaches_handler.
Qed.

(** ** The theorems at work *)

(** A 300-character message at level Error: the line keeps the label and
    the first 247 characters, which with the terminator fill the buffer. *)
Example long_message_is_cut :
  @log libc Loglevel.err (string_of_list_ascii (replicate 300 "a"%char)) []
    (mkWorld (mkLogger Byte.x02 Byte.x01 (Some 0) (Some 1)) [])
  = Some (tt,
      mkWorld (mkLogger Byte.x02 Byte.x01 (Some 0) (Some 1))
        [Println 0
           (Init ("ERROR: " ++ string_of_list_ascii (replicate 247 "a"%char))%string);
         Invoke 1 Byte.x01 (Init "ERROR")
           (string_of_list_ascii (replicate 300 "a"%char))
           (Init (string_of_list_ascii (replicate 247 "a"%char)))]).
Proof. vm_compute. reflexivity. Qed.

(** A disabled logger with both destinations attached sends nothing. *)
Example disabled_sends_nothing :
  (begin_Stream_Callback 0 (Some 1);; setEnabled Byte.x00;;
   @error libc "boom" []) logger
  = Some (tt, mkWorld (mkLogger Byte.x02 Byte.x00 (Some 0) (Some 1)) []).
Proof. vm_compute. reflexivity. Qed.

Lemma line_is_label_colon_message_witness :
  let w := mkWorld (mkLogger Byte.x02 Byte.x01 (Some 0) None) [] in
  exists (body : string) (calls : list event),
    levelN (switch_level Loglevel.info declared) = Init "INFO" /\
    @formatted libc (LOG_BUFFER_SIZE - (String.length "INFO" + 2))
      "x=%d" [VInt 5] = Init body /\
    @log libc Loglevel.info "x=%d" [VInt 5] w
    = Some (tt, after w (Println 0 (Init ("INFO" ++ ": " ++ body)%string)
                         :: calls)) /\
    (forall p text, Println p text ∉ calls).
Proof.
  cbn zeta.
  apply (proj1 line_is_label_colon_message libc
           (mkWorld (mkLogger Byte.x02 Byte.x01 (Some 0) None) [])
           Loglevel.info "INFO" "x=%d" [VInt 5] 0).
  - apply list_elem_of_further, list_elem_of_here.
  - simpl. discriminate.
  - simpl. lia.
  - reflexivity.
Defined.

Lemma handler_gets_level_label_format_message_witness :
  let w := mkWorld (mkLogger Byte.x03 Byte.x01 None (Some 1)) [] in
  exists (i : nat) (body : string) (writes : list event),
    pti (switch_level Loglevel.err declared) = Init i /\
    @formatted libc (LOG_BUFFER_SIZE - i) "boom" [] = Init body /\
    @log libc Loglevel.err "boom" [] w
    = Some (tt, after w (writes ++
              [Invoke 1 (Loglevel.to_uint8 Loglevel.err)
                 (levelN (switch_level Loglevel.err declared)) "boom"
                 (Init body)])) /\
    (forall h' lv nm f msg, Invoke h' lv nm f msg ∉ writes) /\
    (forall label,
       (Loglevel.err, label) ∈ [(Loglevel.err, "ERROR"); (Loglevel.info, "INFO");
                                (Loglevel.debug, "DEBUG")] ->
       levelN (switch_level Loglevel.err declared) = Init label).
Proof.
  cbn zeta.
  apply (proj1 handler_gets_level_label_format_message libc
           (mkWorld (mkLogger Byte.x03 Byte.x01 None (Some 1)) [])
           Loglevel.err "boom" [] 1).
  - simpl. discriminate.
  - simpl. lia.
  - reflexivity.
Defined.

Lemma message_is_bounded_format_witness :
  let w := mkWorld (mkLogger Byte.x02 Byte.x01 (Some 0) (Some 1)) [] in
  let s := string_of_list_ascii (replicate 300 "a"%char) in
  exists (i : nat) (body : string) (new : list event),
    pti (switch_level Loglevel.err declared) = Init i /\
    @formatted libc (LOG_BUFFER_SIZE - i) s [] = Init body /\
    body = string_of_list_ascii
             (until_NUL (take (LOG_BUFFER_SIZE - i - 1)
                           (list_ascii_of_string (@vformat libc s [])))) /\
    list_ascii_of_string body
      `prefix_of` list_ascii_of_string (@vformat libc s []) /\
    String.length body < LOG_BUFFER_SIZE - i /\
    (String.length (@vformat libc s []) < LOG_BUFFER_SIZE - i ->
     Forall (fun c => is_NUL c = false)
       (list_ascii_of_string (@vformat libc s [])) ->
     body = @vformat libc s []) /\
    @log libc Loglevel.err s [] w = Some (tt, after w new) /\
    (forall strm, _strm (this w) = Some strm ->
       exists front, Println strm (Init (front ++ body)%string) ∈ new) /\
    (forall h, _logEvent (this w) = Some h ->
       exists nm,
         Invoke h (Loglevel.to_uint8 Loglevel.err) nm s (Init body) ∈ new).
Proof.
  cbn zeta.
  apply (message_is_bounded_format libc
           (mkWorld (mkLogger Byte.x02 Byte.x01 (Some 0) (Some 1)) [])
           Loglevel.err (string_of_list_ascii (replicate 300 "a"%char)) []).
  - simpl. discriminate.
  - simpl. lia.
  - left. simpl. discriminate.
Defined.

Lemma stream_then_handler_witness :
  let w := mkWorld (mkLogger Byte.x02 Byte.x01 (Some 0) (Some 1)) [] in
  exists (line : string) (nm : slot string) (body : string),
    @log libc Loglevel.info "x=%d" [VInt 5] w
    = Some (tt, after w [Println 0 (Init line);
                         Invoke 1 (Loglevel.to_uint8 Loglevel.info) nm
                           "x=%d" (Init body)]).
Proof.
  cbn zeta.
  apply (stream_then_handler libc
           (mkWorld (mkLogger Byte.x02 Byte.x01 (Some 0) (Some 1)) [])
           Loglevel.info "x=%d" [VInt 5] 0 1).
  - simpl. discriminate.
  - simpl. lia.
  - reflexivity.
  - reflexivity.
Defined.

Lemma unlabelled_level_locals_witness :
  let o := mkLogger Byte.x02 Byte.x01 (Some 0) (Some 1) in
  rejects o Byte.x00 = false /\
  switch_level Byte.x00 declared = declared /\
  levelN (switch_level Byte.x00 declared) = Indeterminate /\
  pti (switch_level Byte.x00 declared) = Init 0.
Proof.
  cbn zeta.
  apply (proj1 unlabelled_level_locals
           (mkLogger Byte.x02 Byte.x01 (Some 0) (Some 1)) Byte.x00).
  - intros [E|[E|E]]; discriminate E.
  - simpl. discriminate.
  - simpl. lia.
  - left. simpl. discriminate.
Defined.

Lemma setEnabled_stores_byte_witness :
  let w := mkWorld (mkLogger Byte.x02 Byte.x00 (Some 0) (Some 1)) [] in
  (setEnabled Byte.xff;; getEnabled) w
  = Some (Byte.xff, {| this := set_enabled Byte.xff (this w); sent := sent w |}) /\
  exists new,
    (setEnabled Byte.xff;; @log libc Loglevel.info "x=%d" [VInt 5]) w
    = Some (tt, after {| this := set_enabled Byte.xff (this w); sent := sent w |}
                  new) /\
    (exists text, Println 0 text ∈ new) /\
    (exists nm msg,
       Invoke 1 (Loglevel.to_uint8 Loglevel.info) nm "x=%d" msg ∈ new).
Proof.
  cbn zeta.
  pose (w := mkWorld (mkLogger Byte.x02 Byte.x00 (Some 0) (Some 1)) []).
  destruct (setEnabled_stores_byte libc w Byte.xff) as [Hget Hon].
  split; [exact Hget|].
  destruct (Hon ltac:(discriminate) Loglevel.info "x=%d" [VInt 5])
    as (_ & new & Hrun & Hsent).
  exists new. split; [exact Hrun|].
  destruct Hsent as [Hs Hh]; [simpl; lia|].
  split; [apply Hs | apply Hh]; reflexivity.
Defined.

(** * Further properties of the code *)

(** ** What a call can and cannot send *)

Section Calls.

Context `{Platform}.

Lemma string_length_append (a b : string) :
  String.length (String.append a b) = String.length a + String.length b.
Proof. induction a as [|c r IH]; simpl; [reflexivity|]. now rewrite IH. Qed.

Lemma output_nonempty (o : Logger) (level : Loglevel.t) (s : string)
    (args : va_list) :
  output o level s args <> [] <-> rejects o level = false.
Proof.
  unfold output. destruct (rejects o level) eqn:E.
  - split; [congruence|discriminate].
  - split; [reflexivity|]. intros _.
    apply rejects_false in E as (_ & _ & Hdst).
    unfold stream_part, callback_part.
    destruct (_strm o), (_logEvent o); try discriminate.
    destruct Hdst; congruence.
Qed.

Lemma sends_log (w : world) (level : Loglevel.t) (s : string) (args : va_list) :
  sends (log level s args) w <-> rejects (this w) level = false.
Proof.
  rewrite <- (output_nonempty _ _ s args). unfold sends. rewrite log_run.
  split.
  - intros (w' & new & [= <-] & Hsent & Hnew). cbn [after sent] in Hsent.
    apply app_inv_head in Hsent. congruence.
  - intros Hne. now exists (after w (output (this w) level s args)), (output (this w) level s args).
Qed.

Lemma sends_after_assign (f : Logger -> Logger) (w : world)
    (level : Loglevel.t) (s : string) (args : va_list) :
  sends (assign f;; log level s args) w <-> rejects (f (this w)) level = false.
Proof.
  rewrite <- (output_nonempty _ _ s args). unfold sends.
  rewrite log_after_assign. split.
  - intros (w' & new & [= <-] & Hsent & Hnew). cbn [after sent this] in Hsent.
    apply app_inv_head in Hsent. congruence.
  - intros Hne. eexists _, _. split; [reflexivity|]. split; [reflexivity|assumption].
Qed.

(** X1: severities form a ladder.  Whenever a call at some level reaches a
    destination, so does a call at every level of lower numeric value, with
    any message; so a state that lets [debug] through lets [info] through,
    and one that lets [info] through lets [error] through. *)
Theorem severity_ladder (w : world) (s1 s2 : string) (args1 args2 : va_list) :
  (forall a b : Loglevel.t,
     (Byte.to_N b <= Byte.to_N a)%N ->
     sends (log a s1 args1) w -> sends (log b s2 args2) w) /\
  (sends (debug s1 args1) w -> sends (info s2 args2) w) /\
  (sends (info s1 args1) w -> sends (error s2 args2) w).
Proof.
  assert (Hstep : forall a b : Loglevel.t,
            (Byte.to_N b <= Byte.to_N a)%N ->
            sends (log a s1 args1) w -> sends (log b s2 args2) w).
  { intros a b Hba. rewrite !sends_log, !rejects_false.
    intros (He & Hle & Hdst). repeat split; try assumption. lia. }
  split; [exact Hstep|].
  split; apply Hstep; simpl; lia.
Qed.

(** X2: raising the threshold never loses a message.  If a call reaches a
    destination after [setLogLevel(T)], then after [setLogLevel(T')] with
    [T <= T'] the same call sends exactly the same events. *)
Theorem raising_threshold_keeps_output (w : world) (T T' : Loglevel.t)
    (level : Loglevel.t) (s : string) (args : va_list) :
  (Byte.to_N T <= Byte.to_N T')%N ->
  sends (setLogLevel T;; log level s args) w ->
  exists (w1 w2 : world) (new : list event),
    (setLogLevel T;; log level s args) w = Some (tt, w1) /\
    (setLogLevel T';; log level s args) w = Some (tt, w2) /\
    sent w1 = sent w ++ new /\ sent w2 = sent w ++ new /\ new <> [].
Proof.
  intros HT Hs. unfold setLogLevel in *.
  apply sends_after_assign in Hs.
  assert (Hs' : rejects (set_logLevel (Loglevel.to_uint8 T') (this w)) level
                = false).
  { apply rejects_false in Hs as (He & Hle & Hdst).
    apply rejects_false. repeat split; try assumption.
    unfold Loglevel.to_uint8 in *; simpl in *. lia. }
  rewrite !log_after_assign. unfold output. rewrite Hs, Hs'.
  eexists _, _, _. repeat split.
  unfold stream_part, callback_part; cbn [set_logLevel _strm _logEvent].
  apply rejects_false in Hs as (_ & _ & Hdst). simpl in Hdst.
  destruct (_strm (this w)), (_logEvent (this w)); try discriminate.
  destruct Hdst; congruence.
Qed.

(** X3: a call sends one event per attached destination when it gets past
    the guard and none otherwise: never more than one line to the stream
    and one invocation of the handler, and never anything to a stream or a
    handler other than the configured one. *)
Theorem one_event_per_destination (w : world) (level : Loglevel.t)
    (s : string) (args : va_list) :
  exists writes calls : list event,
    log level s args w = Some (tt, after w (writes ++ calls)) /\
    length writes
    = (if rejects (this w) level then 0
       else if non_null (_strm (this w)) then 1 else 0) /\
    length calls
    = (if rejects (this w) level then 0
       else if valid (_logEvent (this w)) then 1 else 0) /\
    (forall e, e ∈ writes ->
       exists p text, _strm (this w) = Some p /\ e = Println p text) /\
    (forall e, e ∈ calls ->
       exists h nm msg,
         _logEvent (this w) = Some h /\
         e = Invoke h (Loglevel.to_uint8 level) nm s msg).
Proof.
  destruct (rejects (this w) level) eqn:E.
  - exists [], []. rewrite log_run. unfold output. rewrite E.
    repeat split; intros e Hin; now apply elem_of_nil in Hin.
  - exists (stream_part (this w) level s args),
           (callback_part (this w) level s args).
    rewrite log_run. unfold output. rewrite E.
    unfold stream_part, callback_part.
    split; [reflexivity|].
    split; [now destruct (_strm (this w))|].
    split; [now destruct (_logEvent (this w))|].
    split.
    + intros e Hin. destruct (_strm (this w)); [|now apply elem_of_nil in Hin].
      apply list_elem_of_singleton in Hin as ->. eexists _, _.
      split; reflexivity.
    + intros e Hin.
      destruct (_logEvent (this w)); [|now apply elem_of_nil in Hin].
      apply list_elem_of_singleton in Hin as ->. eexists _, _, _.
      split; reflexivity.
Qed.

(** Labels and leads go together. *)
Lemma lead_of_name (level : Loglevel.t) :
  (forall label, name_of level = Init label ->
     lead level = String.append label ": ") /\
  (name_of level = Indeterminate -> lead level = "").
Proof.
  destruct level; split; simpl; intros; try discriminate; try reflexivity;
    match goal with E : Init _ = Init _ |- _ => injection E as <- end;
    reflexivity.
Qed.



Lemma kept_full (n : nat) (s : string) (args : va_list) :
  Forall (fun c => is_NUL c = false) (list_ascii_of_string (vformat s args)) ->
  n - 1 <= String.length (vformat s args) ->
  String.length (kept n s args) = n - 1.
Proof.
  intros Hclean Hlong. unfold kept.
  rewrite until_NUL_clean by (now apply Forall_take).
  rewrite <- length_list_ascii_of_string, list_ascii_of_string_of_list_ascii.
  apply length_take_le. now rewrite length_list_ascii_of_string.
Qed.

(** X5: a message too long for the buffer fills it exactly.  When the
    complete text has no NUL and at least [LOG_BUFFER_SIZE - 1] characters,
    the line written to the stream has [LOG_BUFFER_SIZE - 1] characters
    whatever the level, and the message body has what is left behind the
    label: [LOG_BUFFER_SIZE - 1 - pti]. *)
Theorem oversized_message_fills_buffer (w : world) (level : Loglevel.t)
    (s : string) (args : va_list) (strm : Stream) :
  _enabled (this w) <> Byte.x00 ->
  (Byte.to_N level <= Byte.to_N (_logLevel (this w)))%N ->
  _strm (this w) = Some strm ->
  Forall (fun c => is_NUL c = false) (list_ascii_of_string (vformat s args)) ->
  LOG_BUFFER_SIZE - 1 <= String.length (vformat s args) ->
  exists (i : nat) (line body : string) (calls : list event),
    pti (switch_level level declared) = Init i /\
    log level s args w
    = Some (tt, after w (Println strm (Init line) :: calls)) /\
    String.length line = LOG_BUFFER_SIZE - 1 /\
    formatted (LOG_BUFFER_SIZE - i) s args = Init body /\
    String.length body = LOG_BUFFER_SIZE - 1 - i.
Proof.
  intros He Hle Hs Hclean Hlong.
  pose proof (room_bounds level) as Hroom. pose proof (lead_short level) as Hlead.
  assert (Hbody : String.length (kept (room level) s args) = room level - 1).
  { apply kept_full; [assumption|]. unfold room. lia. }
  exists (String.length (lead level)),
    (String.append (lead level) (kept (room level) s args)),
    (kept (room level) s args), (callback_part (this w) level s args).
  split; [apply pti_switch_level|].
  split.
  { rewrite log_passes by (try assumption; left; congruence).
    unfold stream_part. now rewrite Hs. }
  split.
  { rewrite string_length_append, Hbody. unfold room in *.
    change LOG_BUFFER_SIZE with 255 in *. lia. }
  fold (room level).
  split; [apply formatted_kept; lia|].
  rewrite Hbody. unfold room. lia.
Qed.

(** X6: with both destinations attached the two get the same text.  The
    line on the stream is the handler's label argument, a colon, a space and
    the handler's message argument; for a level without a label it is the
    handler's message argument alone. *)
Theorem line_is_label_and_handler_message (w : world) (level : Loglevel.t)
    (s : string) (args : va_list) (strm : Stream) (h : handler) :
  _enabled (this w) <> Byte.x00 ->
  (Byte.to_N level <= Byte.to_N (_logLevel (this w)))%N ->
  _strm (this w) = Some strm ->
  _logEvent (this w) = Some h ->
  exists (front : string) (nm : slot string) (body : string),
    log level s args w
    = Some (tt, after w [Println strm (Init (front ++ body)%string);
                         Invoke h (Loglevel.to_uint8 level) nm s (Init body)]) /\
    (forall label, nm = Init label -> front = (label ++ ": ")%string) /\
    (nm = Indeterminate -> front = "").
Proof.
  intros He Hle Hs Hh.
  exists (lead level), (name_of level), (kept (room level) s args).
  split; [|apply lead_of_name].
  rewrite log_passes by (try assumption; left; congruence).
  unfold stream_part, callback_part. now rewrite Hs, Hh.
Qed.

(** ** Sequences of calls *)

Lemma after_after (w : world) (a b : list event) :
  after (after w a) b = after w (a ++ b).
Proof. unfold after; cbn [this sent]. now rewrite app_assoc. Qed.

(** What a caller's sequence sends, call by call. *)
Lemma log_all_run (calls : list call) (w : world) :
  log_all calls w
  = Some (tt, after w (concat (map (fun c : call =>
                                      let '(level, s, args) := c in
                                      output (this w) level s args) calls))).
Proof.
  revert w. induction calls as [|[[level s] args] rest IH]; intros w.
  - cbn [log_all map concat]. unfold skip, mret, M_ret. now rewrite after_nil.
  - cbn [log_all map concat]. unfold mbind, M_bind.
    rewrite log_run, IH, after_after. reflexivity.
Qed.

Lemma output_disabled (o : Logger) (level : Loglevel.t) (s : string)
    (args : va_list) :
  _enabled o = Byte.x00 -> output o level s args = [].
Proof.
  intros He. unfold output.
  rewrite (proj2 (rejects_true o level)); [reflexivity|now left].
Qed.

(** X7: the order of the configuration calls does not matter.
    [begin(strm, ev)] leaves the object as [begin(strm)] and [begin(ev)] do
    in either order, and [setLogLevel], [setEnabled] and the [begin] calls
    can be swapped freely. *)
Theorem configuration_order_is_irrelevant (w : world) (strm : Stream)
    (ev : loggerCallback) (level : Loglevel.t) (en : Byte.byte) :
  (begin_Callback ev;; begin_Stream strm) w = begin_Stream_Callback strm ev w /\
  (begin_Stream strm;; begin_Callback ev) w = begin_Stream_Callback strm ev w /\
  (setLogLevel level;; setEnabled en) w = (setEnabled en;; setLogLevel level) w /\
  (setLogLevel level;; begin_Stream_Callback strm ev) w
  = (begin_Stream_Callback strm ev;; setLogLevel level) w /\
  (setEnabled en;; begin_Stream_Callback strm ev) w
  = (begin_Stream_Callback strm ev;; setEnabled en) w.
Proof. destruct w as [o sofar]. split_all; reflexivity. Qed.

(** X8: calls do not influence each other.  A sequence of [log] calls
    returns, leaves the object as it was, and sends, in order, exactly what
    each call would have sent had it been the only one. *)
Theorem calls_are_independent (w : world) (calls : list call) :
  exists news : list (list event),
    log_all calls w = Some (tt, after w (concat news)) /\
    Forall2 (fun (c : call) (new : list event) =>
               let '(level, s, args) := c in
               log level s args w = Some (tt, after w new))
      calls news.
Proof.
  exists (map (fun c : call => let '(level, s, args) := c in
                               output (this w) level s args) calls).
  split; [apply log_all_run|].
  induction calls as [|[[level s] args] rest IH]; cbn [map].
  - constructor.
  - constructor; [apply log_run|exact IH].
Qed.

(** X9: a disabled period leaves no trace.  After [setEnabled(0)] no
    sequence of [log] calls sends anything, and enabling again continues as
    if those calls had never been made. *)
Theorem disabled_period_is_silent (w : world) (calls : list call)
    (n : Byte.byte) (level : Loglevel.t) (s : string) (args : va_list) :
  (setEnabled Byte.x00;; log_all calls) w = setEnabled Byte.x00 w /\
  (setEnabled Byte.x00;; log_all calls;; setEnabled n;; log level s args) w
  = (setEnabled n;; log level s args) w.
Proof.
  destruct w as [o sofar].
  assert (Hquiet : forall w' : world,
            _enabled (this w') = Byte.x00 -> log_all calls w' = Some (tt, w')).
  { intros w' He. rewrite log_all_run.
    replace (concat _) with (@nil event); [now rewrite after_nil|].
    induction calls as [|[[l f] a] rest IH]; cbn [map concat]; [reflexivity|].
    now rewrite output_disabled, <- IH. }
  unfold setEnabled, mbind, M_bind, assign; cbn [this sent].
  rewrite Hquiet by reflexivity. split; reflexivity.
Qed.

(** X10: logging never touches the configuration.  Whatever is logged in
    between, [getLogLevel] returns the level given to [setLogLevel] (named
    or not), [getEnabled] returns the byte given to [setEnabled], and the
    destinations given to [begin] stay in place. *)
Theorem configuration_survives_logging (w : world) (calls : list call)
    (level : Loglevel.t) (en : Byte.byte) (strm : Stream)
    (ev : loggerCallback) :
  (exists w', (setLogLevel level;; log_all calls;; getLogLevel) w
              = Some (level, w')) /\
  (exists w', (setEnabled en;; log_all calls;; getEnabled) w
              = Some (en, w')) /\
  (exists w', (begin_Stream_Callback strm ev;; log_all calls) w
              = Some (tt, w') /\
              _strm (this w') = Some strm /\ _logEvent (this w') = ev).
Proof.
  destruct w as [o sofar].
  unfold setLogLevel, setEnabled, begin_Stream_Callback, getLogLevel,
    getEnabled, mbind, M_bind, assign, self, mret, M_ret; cbn [this sent].
  rewrite !log_all_run. cbn [after this sent].
  split_all; eexists; split_all; reflexivity.
Qed.

(** X11: the threshold set last decides the very next call of each wrapper.
    With logging enabled and a destination attached, after [setLogLevel(T)]
    [error] reaches a destination exactly when [1 <= T], [info] exactly
    when [2 <= T] and [debug] exactly when [3 <= T]; a threshold of 0
    silences all three. *)
Theorem threshold_decides_wrappers (w : world) (T : Loglevel.t)
    (s : string) (args : va_list) :
  _enabled (this w) <> Byte.x00 ->
  _strm (this w) <> None \/ _logEvent (this w) <> None ->
  (sends (setLogLevel T;; error s args) w <-> (1 <= Byte.to_N T)%N) /\
  (sends (setLogLevel T;; info s args) w <-> (2 <= Byte.to_N T)%N) /\
  (sends (setLogLevel T;; debug s args) w <-> (3 <= Byte.to_N T)%N).
Proof.
  intros He Hdst. unfold error, info, debug, setLogLevel.
  rewrite !sends_after_assign, !rejects_false.
  cbn [set_logLevel _enabled _logLevel _strm _logEvent].
  unfold Loglevel.to_uint8.
  change (Byte.to_N Loglevel.err) with 1%N.
  change (Byte.to_N Loglevel.info) with 2%N.
  change (Byte.to_N Loglevel.debug) with 3%N.
  tauto.
Qed.

End Calls.

Lemma clean_by_forallb (cs : list ascii) :
  forallb (fun c => negb (is_NUL c)) cs = true ->
  Forall (fun c => is_NUL c = false) cs.
Proof.
  induction cs as [|c r IH]; simpl; [constructor|].
  rewrite andb_true_iff, negb_true_iff. intros [Hc Hr].
  constructor; [exact Hc|exact (IH Hr)].
Qed.

Lemma severity_ladder_witness :
  sends (@info libc "up" [])
    (mkWorld (mkLogger Byte.x03 Byte.x01 (Some 0) None) []) /\
  sends (@error libc "down" [])
    (mkWorld (mkLogger Byte.x03 Byte.x01 (Some 0) None) []).
Proof.
  assert (Hdebug : sends (@debug libc "x=%d" [VInt 5])
            (mkWorld (mkLogger Byte.x03 Byte.x01 (Some 0) None) [])).
  { eexists _, _. split; [vm_compute; reflexivity|].
    split; [reflexivity|discriminate]. }
  destruct (@severity_ladder libc
              (mkWorld (mkLogger Byte.x03 Byte.x01 (Some 0) None) [])
              "x=%d" "up" [VInt 5] []) as (_ & Hdi & _).
  split; [exact (Hdi Hdebug)|].
  destruct (@severity_ladder libc
              (mkWorld (mkLogger Byte.x03 Byte.x01 (Some 0) None) [])
              "up" "down" [] []) as (_ & _ & Hie).
  exact (Hie (Hdi Hdebug)).
Defined.

Lemma raising_threshold_keeps_output_witness :
  exists (w1 w2 : world) (new : list event),
    (setLogLevel Loglevel.info;; @log libc Loglevel.info "x=%d" [VInt 5])
      (mkWorld (mkLogger Byte.x01 Byte.x01 (Some 0) None) [])
    = Some (tt, w1) /\
    (setLogLevel Loglevel.debug;; @log libc Loglevel.info "x=%d" [VInt 5])
      (mkWorld (mkLogger Byte.x01 Byte.x01 (Some 0) None) [])
    = Some (tt, w2) /\
    sent w1 = sent (mkWorld (mkLogger Byte.x01 Byte.x01 (Some 0) None) []) ++ new /\
    sent w2 = sent (mkWorld (mkLogger Byte.x01 Byte.x01 (Some 0) None) []) ++ new /\
    new <> [].
Proof.
  apply (@raising_threshold_keeps_output libc
           (mkWorld (mkLogger Byte.x01 Byte.x01 (Some 0) None) [])
           Loglevel.info Loglevel.debug Loglevel.info "x=%d" [VInt 5]).
  - simpl. lia.
  - eexists _, _. split; [vm_compute; reflexivity|].
    split; [reflexivity|discriminate].
Defined.

Lemma oversized_message_fills_buffer_witness :
  exists (i : nat) (line body : string) (calls : list event),
    pti (switch_level Loglevel.err declared) = Init i /\
    @log libc Loglevel.err (string_of_list_ascii (replicate 300 "a"%char)) []
      (mkWorld (mkLogger Byte.x02 Byte.x01 (Some 0) (Some 1)) [])
    = Some (tt, after (mkWorld (mkLogger Byte.x02 Byte.x01 (Some 0) (Some 1)) [])
                  (Println 0 (Init line) :: calls)) /\
    String.length line = LOG_BUFFER_SIZE - 1 /\
    @formatted libc (LOG_BUFFER_SIZE - i)
      (string_of_list_ascii (replicate 300 "a"%char)) [] = Init body /\
    String.length body = LOG_BUFFER_SIZE - 1 - i.
Proof.
  apply (@oversized_message_fills_buffer libc
           (mkWorld (mkLogger Byte.x02 Byte.x01 (Some 0) (Some 1)) [])
           Loglevel.err (string_of_list_ascii (replicate 300 "a"%char)) [] 0).
  - simpl. discriminate.
  - simpl. lia.
  - reflexivity.
  - apply clean_by_forallb. vm_compute. reflexivity.
  - apply Nat.leb_le. vm_compute. reflexivity.
Defined.

Lemma line_is_label_and_handler_message_witness :
  exists (front : string) (nm : slot string) (body : string),
    @log libc Loglevel.debug "x=%d" [VInt 5]
      (mkWorld (mkLogger Byte.x03 Byte.x01 (Some 0) (Some 1)) [])
    = Some (tt, after (mkWorld (mkLogger Byte.x03 Byte.x01 (Some 0) (Some 1)) [])
                  [Println 0 (Init (front ++ body)%string);
                   Invoke 1 (Loglevel.to_uint8 Loglevel.debug) nm "x=%d"
                     (Init body)]) /\
    (forall label, nm = Init label -> front = (label ++ ": ")%string) /\
    (nm = Indeterminate -> front = "").
Proof.
  apply (@line_is_label_and_handler_message libc
           (mkWorld (mkLogger Byte.x03 Byte.x01 (Some 0) (Some 1)) [])
           Loglevel.debug "x=%d" [VInt 5] 0 1).
  - simpl. discriminate.
  - simpl. lia.
  - reflexivity.
  - reflexivity.
Defined.

Lemma threshold_decides_wrappers_witness :
  (sends (setLogLevel Byte.x00;; @error libc "boom" [])
     (mkWorld (mkLogger Byte.x03 Byte.x01 (Some 0) (Some 1)) [])
   <-> (1 <= Byte.to_N Byte.x00)%N) /\
  (sends (setLogLevel Byte.x00;; @info libc "boom" [])
     (mkWorld (mkLogger Byte.x03 Byte.x01 (Some 0) (Some 1)) [])
   <-> (2 <= Byte.to_N Byte.x00)%N) /\
  (sends (setLogLevel Byte.x00;; @debug libc "boom" [])
     (mkWorld (mkLogger Byte.x03 Byte.x01 (Some 0) (Some 1)) [])
   <-> (3 <= Byte.to_N Byte.x00)%N).
Proof.
  apply (@threshold_decides_wrappers libc
           (mkWorld (mkLogger Byte.x03 Byte.x01 (Some 0) (Some 1)) [])
           Byte.x00 "boom" []).
  - simpl. discriminate.
  - left. simpl. discriminate.
Defined.
